(** * Kanye_Cleaner: a shallow embedding of [app.py].

    The application is a Flask program with four views and one helper,
    [extract_playlist_id].  Python [str] values are modelled as [string]
    (a sequence of bytes, i.e. the UTF-8 encoding of the text): both regular
    expressions of the program consist of ASCII characters only, and no byte
    of a multi-byte UTF-8 sequence is an ASCII byte, so matching on bytes and
    matching on code points agree for them.  Dictionaries ([os.environ],
    [request.args], [request.form]) are finite maps with string keys. *)

From Stdlib Require Import Ascii NArith ZArith.
From stdpp Require Import gmap strings list fin_maps.

Local Open Scope Z_scope.

(** ** Strings *)

Module Str.

(** [bool(s)] of a Python string: the empty string is falsy. *)
Definition truthy (s : string) : bool :=
  match s with
  | EmptyString => false
  | String _ _ => true
  end.

(** Every character of [s] satisfies [p]. *)
Fixpoint all (p : ascii → bool) (s : string) : bool :=
  match s with
  | EmptyString => true
  | String c s' => p c && all p s'
  end.

(** The first character of [s], when there is one, satisfies [p]. *)
Definition head_is (p : ascii → bool) (s : string) : bool :=
  match s with
  | EmptyString => false
  | String c _ => p c
  end.

(** [count(x, l)]: occurrences of a string in a list of strings. *)
Fixpoint count (x : string) (l : list string) : nat :=
  match l with
  | [] => 0%nat
  | y :: l' => ((if decide (x = y) then 1 else 0) + count x l')%nat
  end.

End Str.

(** ** The regular expressions of [extract_playlist_id]

    Both patterns have the shape [lit([a-zA-Z0-9]+)]: a literal text (the
    escaped dots [\.] of the source are literal dots) followed by one
    capturing group holding a greedy, non-empty run of ASCII letters and
    digits.  Nothing follows the group, so the first successful attempt of
    the backtracking matcher at a start position is the one that takes the
    longest run.  [re.search] tries the start positions from left to right
    and returns the first match. *)

Module Re.

(** [lo <= c <= hi] on character codes. *)
Definition in_range (lo hi c : ascii) : bool :=
  ((N_of_ascii lo <=? N_of_ascii c) && (N_of_ascii c <=? N_of_ascii hi))%N.

(** The character class [[a-zA-Z0-9]]. *)
Definition is_alnum (c : ascii) : bool :=
  in_range "a" "z" c || in_range "A" "Z" c || in_range "0" "9" c.

(** Greedy [[a-zA-Z0-9]*]: the longest prefix of [s] inside the class. *)
Fixpoint take_alnum (s : string) : string :=
  match s with
  | EmptyString => EmptyString
  | String c s' => if is_alnum c then String c (take_alnum s') else EmptyString
  end.

(** Match the literal [lit] at the start of [s]; the rest of [s] on
    success. *)
Fixpoint match_lit (lit s : string) : option string :=
  match lit, s with
  | EmptyString, _ => Some s
  | String a lit', String b s' =>
      if decide (a = b) then match_lit lit' s' else None
  | String _ _, EmptyString => None
  end.

(** Match [lit([a-zA-Z0-9]+)] at the start of [s]: group 1 on success. *)
Definition match_here (lit s : string) : option string :=
  match match_lit lit s with
  | Some rest =>
      let g := take_alnum rest in
      if Str.truthy g then Some g else None
  | None => None
  end.

(** [re.search(lit([a-zA-Z0-9]+), s)]: [Some (m.group(1))] for the leftmost
    match [m], [None] when no position matches. *)
Fixpoint search (lit s : string) : option string :=
  match match_here lit s with
  | Some g => Some g
  | None =>
      match s with
      | EmptyString => None
      | String _ s' => search lit s'
      end
  end.

End Re.

(** ** [extract_playlist_id] *)

Definition url_pattern : string := "https://open.spotify.com/playlist/".
Definition uri_pattern : string := "spotify:playlist:".

(** A match object is always truthy, so [if url_match:] tests for [None]. *)
Definition extract_playlist_id (playlist_input : string) : string :=
  match Re.search url_pattern playlist_input with
  | Some url_group1 => url_group1
  | None =>
      match Re.search uri_pattern playlist_input with
      | Some uri_group1 => uri_group1
      | None => playlist_input
      end
  end.

(** ** Python outcomes and the HTTP effect *)

Inductive exn :=
| ValueError (msg : string)
| KeyError (key : string)
| JSONDecodeError.

Inductive outcome (A : Type) :=
| Return (a : A)
| Raise (e : exn).
Arguments Return {A} a.
Arguments Raise {A} e.

Inductive method := GET | POST | DELETE.

(** The body of an outgoing request: [data=payload] of [requests.post] is a
    form, [json={"tracks": [{"uri": u1}, ...]}] of [requests.delete] is kept
    as the list [u1, ...] of its entries, in order and with repetitions. *)
Inductive body :=
| NoBody
| FormData (data : list (string * string))
| JsonTracks (uris : list string).

Record request := {
  req_method : method;
  req_url : string;
  req_headers : list (string * string);
  req_body : body
}.

(** A track item of the playlist-tracks endpoint:
    [{"track": {"uri": ..., "artists": [{"id": ..., "name": ...}, ...]}}]. *)
Record artist := { artist_id : string; artist_name : string }.
Record track := { track_uri : string; track_artists : list artist }.
Record playlist_item := { item_track : track }.

(** What [response.json()] decodes to. *)
Inductive json_body :=
| JsonFields (fields : gmap string string)
| JsonPlaylistTracks (items : list playlist_item)
| NotJson.

Record response := {
  status_code : Z;
  text : string;
  json : json_body
}.

(** A computation that issues HTTP requests: it extends the trace of the
    requests sent so far and returns or raises. *)
Definition IO (A : Type) : Type := list request → outcome A * list request.

Global Instance IO_ret : MRet IO := λ A a tr, (Return a, tr).
Global Instance IO_bind : MBind IO := λ A B f m tr,
  match m tr with
  | (Return a, tr') => f a tr'
  | (Raise e, tr') => (Raise e, tr')
  end.

Definition raise {A : Type} (e : exn) : IO A := λ tr, (Raise e, tr).

(** Run a view from an empty trace. *)
Definition run {A : Type} (m : IO A) : outcome A * list request := m [].

(** [bool(x)] for the result of [dict.get]: [None] and [""] are falsy. *)
Definition truthy_opt (o : option string) : bool :=
  match o with
  | Some s => Str.truthy s
  | None => false
  end.

(** ** Configuration read at import time *)

Definition REDIRECT_URI : string := "https://kanye-cleaner.onrender.com/callback".
Definition AUTH_URL : string := "https://accounts.spotify.com/authorize".
Definition TOKEN_URL : string := "https://accounts.spotify.com/api/token".
Definition API_BASE_URL : string := "https://api.spotify.com/v1".

Record config := { CLIENT_ID : string; CLIENT_SECRET : string }.

(** Lines 8-12: [os.getenv] twice, then the guard that raises. *)
Definition load_config (environ : gmap string string) : outcome config :=
  let client_id := environ !! "SPOTIFY_CLIENT_ID" in
  let client_secret := environ !! "SPOTIFY_CLIENT_SECRET" in
  if negb (truthy_opt client_id) || negb (truthy_opt client_secret) then
    Raise (ValueError "Client ID or Client Secret not found in environment variables.")
  else
    Return {| CLIENT_ID := default "" client_id;
              CLIENT_SECRET := default "" client_secret |}.

(** ** The views *)

(** What a Flask view hands back: a rendered template with its keyword
    arguments, or a redirect to [url_for(endpoint, **values)]. *)
Inductive view_result :=
| RenderTemplate (template : string) (context : list (string * string))
| Redirect (endpoint : string) (values : list (string * string)).

Definition kanye_id : string := "5K4W6rqBFWDnAN6FQUkS6x".

(** The inner loop of lines 102-104 for one track. *)
Definition scan_artists (t : track) (tracks_to_remove : list string) : list string :=
  fold_left
    (λ acc a, if decide (artist_id a = kanye_id) then acc ++ [track_uri t] else acc)
    (track_artists t) tracks_to_remove.

(** Lines 100-104: the list built by the two nested loops. *)
Definition filter_tracks (tracks : list playlist_item) : list string :=
  fold_left (λ acc it, scan_artists (item_track it) acc) tracks [].

(** The request of lines 45-52 that exchanges the authorization code. *)
Definition token_request (cfg : config) (code : string) : request :=
  let payload :=
    [("grant_type", "authorization_code"); ("code", code);
     ("redirect_uri", REDIRECT_URI); ("client_id", CLIENT_ID cfg);
     ("client_secret", CLIENT_SECRET cfg)] in
  {| req_method := POST; req_url := TOKEN_URL;
     req_headers := []; req_body := FormData payload |}.

Section Views.

(** The remote services: the response to each outgoing request. *)
Variable http : request → response.
Variable cfg : config.

(** [requests.post], [requests.get], [requests.delete]. *)
Definition send (r : request) : IO response := λ tr, (Return (http r), tr ++ [r]).

(** [response.json()[key]] for a string field. *)
Definition json_field (r : response) (key : string) : IO string :=
  match json r with
  | JsonFields fields =>
      match fields !! key with
      | Some v => mret v
      | None => raise (KeyError key)
      end
  | JsonPlaylistTracks _ => raise (KeyError key)
  | NotJson => raise JSONDecodeError
  end.

(** [response.json()["items"]]. *)
Definition json_items (r : response) : IO (list playlist_item) :=
  match json r with
  | JsonPlaylistTracks items => mret items
  | JsonFields _ => raise (KeyError "items")
  | NotJson => raise JSONDecodeError
  end.

(** [/callback]; the result [None] is Python's [None] of a view that falls
    off its end. *)
Definition callback (args : gmap string string) : IO (option view_result) :=
  match args !! "error" with
  | Some err => mret (Some (RenderTemplate "callback.html" [("error", err)]))
  | None =>
      match args !! "code" with
      | Some code =>
          response ← send (token_request cfg code);
          if status_code response =? 200 then
            access_token ← json_field response "access_token";
            refresh_token ← json_field response "refresh_token";
            mret (Some (Redirect "select_playlist" [("access_token", access_token)]))
          else
            mret (Some (RenderTemplate "callback.html"
              [("error", "Failed to retrieve access token: " +:+ text response)]))
      | None => mret None
      end
  end.

(** [/select_playlist]. *)
Definition select_playlist (args : gmap string string) : IO (option view_result) :=
  let access_token := args !! "access_token" in
  if negb (truthy_opt access_token) then
    mret (Some (RenderTemplate "callback.html" [("error", "Access token missing.")]))
  else
    mret (Some (RenderTemplate "select_playlist.html"
      [("access_token", default "" access_token)])).

(** [/remove_tracks]. *)
Definition remove_artist_tracks (form : gmap string string) : IO (option view_result) :=
  let access_token := form !! "access_token" in
  let playlist_input := form !! "playlist_input" in
  if negb (truthy_opt access_token) || negb (truthy_opt playlist_input) then
    mret (Some (RenderTemplate "callback.html"
      [("error", "Access token or playlist input missing.")]))
  else
    let playlist_id := extract_playlist_id (default "" playlist_input) in
    if negb (Str.truthy playlist_id) then
      mret (Some (RenderTemplate "callback.html"
        [("error", "Invalid playlist URL or URI.")]))
    else
      let headers := [("Authorization", "Bearer " +:+ default "" access_token)] in
      let tracks_url := API_BASE_URL +:+ "/playlists/" +:+ playlist_id +:+ "/tracks" in
      response ← send {| req_method := GET; req_url := tracks_url;
                         req_headers := headers; req_body := NoBody |};
      if negb (status_code response =? 200) then
        mret (Some (RenderTemplate "callback.html"
          [("error", "Failed to retrieve playlist tracks: " +:+ text response)]))
      else
        tracks ← json_items response;
        let tracks_to_remove := filter_tracks tracks in
        match tracks_to_remove with
        | _ :: _ =>
            remove_response ← send {| req_method := DELETE; req_url := tracks_url;
                                      req_headers := headers;
                                      req_body := JsonTracks tracks_to_remove |};
            if status_code remove_response =? 200 then
              mret (Some (RenderTemplate "remove_tracks.html"
                [("message", "Tracks removed successfully!")]))
            else
              mret (Some (RenderTemplate "callback.html"
                [("error", "Failed to remove tracks: " +:+ text remove_response)]))
        | [] =>
            mret (Some (RenderTemplate "remove_tracks.html"
              [("message", "No tracks to remove.")]))
        end.

End Views.

(** ** The process: import the module, then serve *)

Inductive incoming :=
| GetCallback (args : gmap string string)
| GetSelectPlaylist (args : gmap string string)
| PostRemoveTracks (form : gmap string string).

Definition dispatch (http : request → response) (cfg : config) (r : incoming)
  : outcome (option view_result) * list request :=
  match r with
  | GetCallback args => run (callback http cfg args)
  | GetSelectPlaylist args => run (select_playlist args)
  | PostRemoveTracks form => run (remove_artist_tracks http form)
  end.

(** Importing the module raises before the Flask application exists; only a
    process whose import succeeded serves the incoming requests. *)
Definition serve (environ : gmap string string) (http : request → response)
    (reqs : list incoming)
  : outcome (list (outcome (option view_result) * list request)) :=
  match load_config environ with
  | Raise e => Raise e
  | Return cfg => Return (map (dispatch http cfg) reqs)
  end.


(** ** [urllib.parse.urlencode] and the entry page

    [urlencode] of a dictionary joins [quote_plus(str(k))=quote_plus(str(v))]
    for its items, in insertion order, with [&].  [quote_plus] keeps ASCII
    letters, digits and [_.-~], writes a space as [+] and every other byte
    as [%XX] with upper-case hexadecimal digits. *)

Module Url.

Definition is_unreserved (c : ascii) : bool :=
  Re.is_alnum c || Ascii.eqb c "_" || Ascii.eqb c "." || Ascii.eqb c "-"
  || Ascii.eqb c "~".

Definition hex_digit (n : N) : ascii :=
  match n with
  | 0 => "0" | 1 => "1" | 2 => "2" | 3 => "3" | 4 => "4" | 5 => "5"
  | 6 => "6" | 7 => "7" | 8 => "8" | 9 => "9" | 10 => "A" | 11 => "B"
  | 12 => "C" | 13 => "D" | 14 => "E" | _ => "F"
  end%N%char.

Definition quote_char (c : ascii) : string :=
  if is_unreserved c then String c EmptyString
  else if Ascii.eqb c " " then "+"
  else String "%" (String (hex_digit (N_of_ascii c / 16))
                     (String (hex_digit (N_of_ascii c mod 16)) EmptyString)).

Fixpoint quote_plus (s : string) : string :=
  match s with
  | EmptyString => EmptyString
  | String c s' => quote_char c +:+ quote_plus s'
  end.

Fixpoint urlencode (query : list (string * string)) : string :=
  match query with
  | [] => EmptyString
  | [(k, v)] => quote_plus k +:+ "=" +:+ quote_plus v
  | (k, v) :: rest => quote_plus k +:+ "=" +:+ quote_plus v +:+ "&" +:+ urlencode rest
  end.

End Url.

(** [/]: lines 26-35.  [str(True)] is ["True"]. *)
Definition index (cfg : config) : IO (option view_result) :=
  let params :=
    [("client_id", CLIENT_ID cfg);
     ("response_type", "code");
     ("redirect_uri", REDIRECT_URI);
     ("scope", "playlist-modify-public playlist-modify-private");
     ("show_dialog", "True")] in
  let auth_url := AUTH_URL +:+ "?" +:+ Url.urlencode params in
  mret (Some (RenderTemplate "index.html" [("auth_url", auth_url)])).

(** * Vocabulary of the statements *)

(** ** What a match is, independently of the matcher *)

Module ReSpec.

(** [lit([a-zA-Z0-9]+)] can match in [s] right after [pre], with group
    [g]. *)
Definition matches (lit s pre g rest : string) : Prop :=
  s = pre +:+ lit +:+ g +:+ rest ∧ g ≠ "" ∧ Str.all Re.is_alnum g = true.

(** The pattern matches somewhere in [s]. *)
Definition occurs (lit s : string) : Prop :=
  ∃ pre g rest, matches lit s pre g rest.

(** [g] is group 1 of the match [re.search] reports: the leftmost start,
    and there the longest run. *)
Definition first_match (lit s g : string) : Prop :=
  ∃ pre rest,
    matches lit s pre g rest ∧
    Str.head_is Re.is_alnum rest = false ∧
    ∀ pre' g' rest', matches lit s pre' g' rest' →
      (String.length pre ≤ String.length pre')%nat.

(** The whole of [s] is the literal followed by an identifier. *)
Definition whole (lit s id : string) : Prop :=
  s = lit +:+ id ∧ id ≠ "" ∧ Str.all Re.is_alnum id = true.

End ReSpec.

(** ** Requests and traces of [/remove_tracks] *)

(** The two requests [remove_artist_tracks] can send, as lines 87-93 and
    108-112 build them. *)
Definition fetch_request (access_token playlist_id : string) : request :=
  {| req_method := GET;
     req_url := API_BASE_URL +:+ "/playlists/" +:+ playlist_id +:+ "/tracks";
     req_headers := [("Authorization", "Bearer " +:+ access_token)];
     req_body := NoBody |}.

Definition delete_request (access_token playlist_id : string) (uris : list string)
  : request :=
  {| req_method := DELETE;
     req_url := API_BASE_URL +:+ "/playlists/" +:+ playlist_id +:+ "/tracks";
     req_headers := [("Authorization", "Bearer " +:+ access_token)];
     req_body := JsonTracks uris |}.

Definition is_delete (r : request) : bool :=
  match req_method r with
  | DELETE => true
  | _ => false
  end.

(** The number of DELETE calls in a trace. *)
Definition delete_calls (tr : list request) : nat :=
  length (List.filter is_delete tr).

(** ** Tracks of the target artist *)

Definition is_kanye (a : artist) : bool := bool_decide (artist_id a = kanye_id).

(** How many times the target artist is credited on a track. *)
Definition credits (t : track) : nat :=
  length (List.filter is_kanye (track_artists t)).

(** The track is credited, in whole or part, to the target artist. *)
Definition credited (it : playlist_item) : bool :=
  existsb is_kanye (track_artists (item_track it)).

(** The tracks of the response that are credited to the target artist. *)
Definition matching (items : list playlist_item) : list playlist_item :=
  List.filter credited items.

Definition item_uri (it : playlist_item) : string := track_uri (item_track it).

(** The payload in closed form: every track's URI, once per credit. *)
Definition credit_uris (items : list playlist_item) : list string :=
  flat_map (λ it, replicate (credits (item_track it)) (item_uri it)) items.

(** The payload the specification asks for: one entry per matching track,
    each matching track's URI exactly once, no URI twice. *)
Definition deduplicated (items : list playlist_item) (uris : list string) : Prop :=
  length uris = length (matching items) ∧
  NoDup uris ∧
  ∀ it, it ∈ matching items → Str.count (item_uri it) uris = 1%nat.

(** [dict.get] found nothing usable: the key is absent or maps to [""]. *)
Definition missing (o : option string) : Prop := o = None ∨ o = Some "".

(** [part] occurs in [s] as a contiguous piece. *)
Definition substring (part s : string) : Prop :=
  ∃ pre post, s = pre +:+ part +:+ post.

(** ** Scenarios used to run the views *)

Module Scenario.

Definition kanye : artist :=
  {| artist_id := kanye_id; artist_name := "Kanye West" |}.
Definition jay_z : artist :=
  {| artist_id := "3nFkdlSjzX9mRTtwJOzDYB"; artist_name := "JAY-Z" |}.
Definition adele : artist :=
  {| artist_id := "4dpARuHxo51G3z768sgnrY"; artist_name := "Adele" |}.

Definition item (uri : string) (artists : list artist) : playlist_item :=
  {| item_track := {| track_uri := uri; track_artists := artists |} |}.

(** One track on which the target artist is credited twice. *)
Definition credited_twice : list playlist_item :=
  [item "spotify:track:1" [kanye; kanye]].

(** Two tracks of the target artist, one shared, next to a foreign one. *)
Definition mixed : list playlist_item :=
  [item "spotify:track:1" [kanye; jay_z];
   item "spotify:track:2" [adele];
   item "spotify:track:3" [kanye]].

(** No track of the target artist. *)
Definition foreign : list playlist_item :=
  [item "spotify:track:2" [adele]; item "spotify:track:4" [jay_z]].

(** A service that answers every request with status 200 and, to a GET,
    with the given track items. *)
Definition playlist_service (items : list playlist_item) (r : request) : response :=
  match req_method r with
  | GET => {| status_code := 200; text := "{}"; json := JsonPlaylistTracks items |}
  | _ => {| status_code := 200; text := "{}"; json := NotJson |}
  end.

(** A token endpoint that rejects the authorization code. *)
Definition rejecting_service (r : request) : response :=
  {| status_code := 400; text := "invalid_grant"; json := NotJson |}.

Definition form : gmap string string :=
  <["access_token" := "tok"]> {["playlist_input" := "spotify:playlist:abc"]}.

Definition cfg : config := {| CLIENT_ID := "id"; CLIENT_SECRET := "secret" |}.

(** A token endpoint that grants the code. *)
Definition granting_service (r : request) : response :=
  {| status_code := 200; text := "{}";
     json := JsonFields (<["access_token" := "BQD"]> {["refresh_token" := "AQC"]}) |}.

(** A token endpoint whose answer lacks the refresh token. *)
Definition no_refresh_service (r : request) : response :=
  {| status_code := 200; text := "{}";
     json := JsonFields {["access_token" := "BQD"]} |}.

(** A service that knows no playlist. *)
Definition not_found_service (r : request) : response :=
  {| status_code := 404; text := "Not found."; json := NotJson |}.

(** A service that lists the tracks and refuses to delete. *)
Definition read_only_service (items : list playlist_item) (r : request) : response :=
  match req_method r with
  | GET => {| status_code := 200; text := "{}"; json := JsonPlaylistTracks items |}
  | _ => {| status_code := 403; text := "Forbidden."; json := NotJson |}
  end.


End Scenario.

(** * Running the program on the scenarios of the specification *)

Example extract_url :
  extract_playlist_id "https://open.spotify.com/playlist/37i9dQZF1DXcBWIGoYBM5M"
  = "37i9dQZF1DXcBWIGoYBM5M".
Proof. reflexivity. Qed.

Example extract_uri :
  extract_playlist_id "spotify:playlist:37i9dQZF1DXcBWIGoYBM5M"
  = "37i9dQZF1DXcBWIGoYBM5M".
Proof. reflexivity. Qed.

Example extract_url_query :
  extract_playlist_id "https://open.spotify.com/playlist/37i9dQZF1DXcBWIGoYBM5M?si=ab12"
  = "37i9dQZF1DXcBWIGoYBM5M".
Proof. reflexivity. Qed.

Example extract_embedded :
  extract_playlist_id "see https://open.spotify.com/playlist/abc123 (shared)" = "abc123".
Proof. reflexivity. Qed.

Example extract_bare :
  extract_playlist_id "37i9dQZF1DXcBWIGoYBM5M" = "37i9dQZF1DXcBWIGoYBM5M".
Proof. reflexivity. Qed.

(** * Specification of the matcher *)

(** ** Facts about strings *)

Local Arguments String.append !_ _ / : simpl nomatch.

Lemma append_nil_r (s : string) : s +:+ "" = s.
Proof. induction s as [|c s IH]; simpl; [done | by rewrite IH]. Qed.

Lemma append_assoc (a b c : string) : (a +:+ b) +:+ c = a +:+ b +:+ c.
Proof. induction a as [|x a IH]; simpl; [done | by rewrite IH]. Qed.

Lemma append_length (a b : string) :
  String.length (a +:+ b) = (String.length a + String.length b)%nat.
Proof. induction a as [|x a IH]; simpl; [done | by rewrite IH]. Qed.

Lemma append_inv_head (a b c : string) : a +:+ b = a +:+ c → b = c.
Proof. induction a as [|x a IH]; simpl; [done | intros [= H]; auto]. Qed.

(** Two splits of one string at the same offset are the same split. *)
Lemma append_inv_length (a a' b b' : string) :
  a +:+ b = a' +:+ b' → String.length a = String.length a' → a = a' ∧ b = b'.
Proof.
  revert a'. induction a as [|x a IH]; intros [|y a']; simpl; try done.
  intros [= -> H] [= Hlen]. destruct (IH _ H Hlen) as [-> ->]. done.
Qed.

Lemma truthy_nonempty (s : string) : Str.truthy s = true ↔ s ≠ "".
Proof. destruct s; simpl; split; done. Qed.

Lemma all_append (p : ascii → bool) (a b : string) :
  Str.all p (a +:+ b) = Str.all p a && Str.all p b.
Proof.
  induction a as [|x a IH]; simpl; [done |].
  rewrite IH. by rewrite andb_assoc.
Qed.

Lemma all_impl (p q : ascii → bool) (s : string) :
  (∀ c, p c = true → q c = true) → Str.all p s = true → Str.all q s = true.
Proof.
  intros Hpq. induction s as [|c s IH]; simpl; [done |].
  intros [Hc Hs]%andb_prop. rewrite (Hpq _ Hc). simpl. auto.
Qed.

(** ** The pieces of the matcher *)

Lemma match_lit_Some (lit s rest : string) :
  Re.match_lit lit s = Some rest ↔ s = lit +:+ rest.
Proof.
  revert s. induction lit as [|a lit IH]; intros s; simpl.
  - split; [by intros [= ->] | by intros ->].
  - destruct s as [|b s].
    + split; done.
    + case_decide as Hab.
      * subst b. rewrite IH. split; [by intros -> | by intros [= ->]].
      * split; [done | intros [= ? ?]; congruence].
Qed.

Lemma match_lit_append (lit rest : string) :
  Re.match_lit lit (lit +:+ rest) = Some rest.
Proof. by apply match_lit_Some. Qed.

Lemma take_alnum_all (s : string) : Str.all Re.is_alnum (Re.take_alnum s) = true.
Proof.
  induction s as [|c s IH]; simpl; [done |].
  destruct (Re.is_alnum c) eqn:Hc; simpl; [by rewrite Hc | done].
Qed.

(** The run stops at the end of the input or in front of a character outside
    the class. *)
Lemma take_alnum_split (s : string) :
  ∃ rest, s = Re.take_alnum s +:+ rest ∧ Str.head_is Re.is_alnum rest = false.
Proof.
  induction s as [|c s (rest & IH & Hrest)]; simpl.
  - by exists "".
  - destruct (Re.is_alnum c) eqn:Hc; simpl.
    + exists rest. by rewrite <-IH.
    + exists (String c s). done.
Qed.

Lemma take_alnum_append (g rest : string) :
  Str.all Re.is_alnum g = true →
  Re.take_alnum (g +:+ rest) = g +:+ Re.take_alnum rest.
Proof.
  induction g as [|c g IH]; simpl; [done |].
  intros [Hc Hg]%andb_prop. rewrite Hc. by rewrite IH.
Qed.

Lemma take_alnum_stop (rest : string) :
  Str.head_is Re.is_alnum rest = false → Re.take_alnum rest = "".
Proof. destruct rest as [|c rest]; simpl; [done | by intros ->]. Qed.

Lemma take_alnum_exact (g rest : string) :
  Str.all Re.is_alnum g = true → Str.head_is Re.is_alnum rest = false →
  Re.take_alnum (g +:+ rest) = g.
Proof.
  intros Hg Hrest. rewrite take_alnum_append by done.
  rewrite take_alnum_stop by done. apply append_nil_r.
Qed.

Lemma take_alnum_truthy (g rest : string) :
  g ≠ "" → Str.all Re.is_alnum g = true →
  Str.truthy (Re.take_alnum (g +:+ rest)) = true.
Proof.
  intros Hne Hg. rewrite take_alnum_append by done.
  destruct g; [done | reflexivity].
Qed.

Lemma match_here_Some (lit s g : string) :
  Re.match_here lit s = Some g ↔
  ∃ rest, ReSpec.matches lit s "" g rest ∧ Str.head_is Re.is_alnum rest = false.
Proof.
  unfold Re.match_here, ReSpec.matches. simpl. split.
  - destruct (Re.match_lit lit s) as [r|] eqn:Hlit; [|done].
    apply match_lit_Some in Hlit. simpl.
    destruct (Str.truthy (Re.take_alnum r)) eqn:Ht; [|done].
    intros [= <-]. destruct (take_alnum_split r) as (rest & Hr & Hrest).
    exists rest. split_and!; [by rewrite <-Hr | by apply truthy_nonempty
      | apply take_alnum_all | done].
  - intros (rest & (-> & Hne & Hg) & Hrest).
    rewrite match_lit_append. simpl. rewrite take_alnum_exact by done.
    by apply truthy_nonempty in Hne as ->.
Qed.

Lemma match_here_None (lit s : string) :
  Re.match_here lit s = None ↔ ¬ ∃ g rest, ReSpec.matches lit s "" g rest.
Proof.
  split.
  - intros Hnone (g & rest & Hs & Hne & Hg). simpl in Hs. subst s.
    unfold Re.match_here in Hnone. rewrite match_lit_append in Hnone.
    simpl in Hnone. by rewrite take_alnum_truthy in Hnone.
  - intros Hno. destruct (Re.match_here lit s) as [g|] eqn:Hm; [|done].
    apply match_here_Some in Hm as (rest & Hm & _). destruct Hno. eauto.
Qed.

Lemma matches_cons (lit s pre g rest : string) (c : ascii) :
  ReSpec.matches lit (String c s) (String c pre) g rest ↔ ReSpec.matches lit s pre g rest.
Proof.
  unfold ReSpec.matches. simpl. split.
  - intros ([= ->] & ? & ?). done.
  - intros (-> & ? & ?). done.
Qed.

(** A match in [String c s] starts at offset 0 or is a match in [s]. *)
Lemma matches_inv (lit s pre g rest : string) (c : ascii) :
  ReSpec.matches lit (String c s) pre g rest →
  pre = "" ∨ ∃ pre1, pre = String c pre1 ∧ ReSpec.matches lit s pre1 g rest.
Proof.
  destruct pre as [|c' pre1]; [by left |]. intros Hm. right.
  assert (c' = c) as ->.
  { destruct Hm as [Hs _]. simpl in Hs. by injection Hs. }
  exists pre1. split; [done |]. exact (proj1 (matches_cons _ _ _ _ _ _) Hm).
Qed.

Lemma search_None (lit s : string) :
  Re.search lit s = None ↔ ¬ ReSpec.occurs lit s.
Proof.
  induction s as [|c s IH]; simpl.
  - destruct (Re.match_here lit "") as [g|] eqn:Hm.
    + split; [done |]. intros Hno. destruct Hno.
      apply match_here_Some in Hm as (rest & Hm & _). by exists "", g, rest.
    + split; [|done]. intros _ (pre & g & rest & Hocc).
      assert (pre = "") as ->.
      { destruct Hocc as [Hs _]. destruct pre; [done | simpl in Hs; done]. }
      apply match_here_None in Hm. destruct Hm. eauto.
  - destruct (Re.match_here lit (String c s)) as [g|] eqn:Hm.
    + split; [done |]. intros Hno. destruct Hno.
      apply match_here_Some in Hm as (rest & Hm & _). by exists "", g, rest.
    + rewrite IH. split.
      * intros Hno (pre & g & rest & Hocc).
        destruct (matches_inv _ _ _ _ _ _ Hocc) as [-> | (pre1 & -> & Hocc1)].
        -- apply match_here_None in Hm. destruct Hm. eauto.
        -- destruct Hno. by exists pre1, g, rest.
      * intros Hno (pre & g & rest & Hocc). destruct Hno.
        exists (String c pre), g, rest. exact (proj2 (matches_cons _ _ _ _ _ _) Hocc).
Qed.

Lemma search_unfold (lit s : string) :
  Re.search lit s =
  match Re.match_here lit s with
  | Some g => Some g
  | None => match s with EmptyString => None | String _ s' => Re.search lit s' end
  end.
Proof. by destruct s. Qed.

(** [Re.search] finds the leftmost, longest match, and only that. *)
Lemma search_Some (lit s g : string) :
  Re.search lit s = Some g ↔ ReSpec.first_match lit s g.
Proof.
  split.
  - revert g. induction s as [|c s IH]; intros g; rewrite search_unfold;
      destruct (Re.match_here lit _) as [g0|] eqn:Hm; try done.
    1,2: intros [= ->]; apply match_here_Some in Hm as (rest & Hm & Hrest);
      exists "", rest; split_and!; [done | done | simpl; lia].
    intros (pre & rest & Hg & Hrest & Hleft)%IH.
    exists (String c pre), rest. split_and!; [|done|].
    + exact (proj2 (matches_cons _ _ _ _ _ _) Hg).
    + intros pre' g' rest' Hocc.
      destruct (matches_inv _ _ _ _ _ _ Hocc) as [-> | (pre1 & -> & Hocc1)].
      * apply match_here_None in Hm. destruct Hm. eauto.
      * simpl. apply le_n_S. eauto.
  - revert g. induction s as [|c s IH]; intros g (pre & rest & Hg & Hrest & Hleft);
      rewrite search_unfold.
    + assert (pre = "") as ->.
      { destruct Hg as [Hs _]. destruct pre; [done | simpl in Hs; done]. }
      assert (Re.match_here lit "" = Some g) as ->; [|done].
      apply match_here_Some. eauto.
    + destruct (matches_inv _ _ _ _ _ _ Hg) as [-> | (pre1 & -> & Hg1)].
      * assert (Re.match_here lit (String c s) = Some g) as ->; [|done].
        apply match_here_Some. eauto.
      * destruct (Re.match_here lit (String c s)) as [g0|] eqn:Hm.
        -- apply match_here_Some in Hm as (rest0 & Hm & _).
           apply Hleft in Hm. simpl in Hm. lia.
        -- apply IH. exists pre1, rest. split_and!; [done | done |].
           intros pre' g' rest' Hocc.
           apply (matches_cons _ _ _ _ _ c) in Hocc.
           apply Hleft in Hocc. simpl in Hocc. lia.
Qed.

Lemma search_group_nonempty (lit s g : string) :
  Re.search lit s = Some g → g ≠ "" ∧ Str.all Re.is_alnum g = true.
Proof. intros (pre & rest & (_ & ? & ?) & _)%search_Some. done. Qed.

Lemma search_occurs (lit s g : string) :
  Re.search lit s = Some g → ReSpec.occurs lit s.
Proof. intros (pre & rest & Hg & _)%search_Some. by exists pre, g, rest. Qed.

(** A text without [/] holds no web URL of a playlist. *)
Lemma search_url_no_slash (s : string) :
  Str.all (λ c, negb (Ascii.eqb c "/")) s = true →
  Re.search url_pattern s = None.
Proof.
  intros Hs. apply search_None. intros (pre & g & rest & -> & _).
  rewrite !all_append in Hs.
  apply andb_prop in Hs as [_ Hs]. apply andb_prop in Hs as [Hs _].
  by vm_compute in Hs.
Qed.

Lemma alnum_not_slash (c : ascii) :
  Re.is_alnum c = true → negb (Ascii.eqb c "/") = true.
Proof.
  destruct (Ascii.eqb_spec c "/") as [-> | _]; [by vm_compute | done].
Qed.

(** * [extract_playlist_id] *)

Lemma search_whole (lit s id : string) :
  ReSpec.whole lit s id → Re.search lit s = Some id.
Proof.
  intros (-> & Hne & Hid). rewrite search_unfold.
  assert (Re.match_here lit (lit +:+ id) = Some id) as ->; [|done].
  apply match_here_Some. exists "". split; [|done].
  split_and!; [by rewrite append_nil_r | done | done].
Qed.

Lemma whole_uri_no_url (s id : string) :
  ReSpec.whole uri_pattern s id → Re.search url_pattern s = None.
Proof.
  intros (-> & _ & Hid). apply search_url_no_slash.
  rewrite all_append. apply andb_true_intro. split; [by vm_compute |].
  revert Hid. apply all_impl, alnum_not_slash.
Qed.

(** C2. When the whole input is the web address
    [https://open.spotify.com/playlist/<id>] or the URI
    [spotify:playlist:<id>], with [<id>] a non-empty run of ASCII letters and
    digits, [extract_playlist_id] returns exactly [<id>]. *)
Theorem extract_playlist_id_of_url_or_uri (s id : string) :
  ReSpec.whole url_pattern s id ∨ ReSpec.whole uri_pattern s id →
  extract_playlist_id s = id.
Proof.
  unfold extract_playlist_id. intros [Hurl | Huri].
  - by rewrite (search_whole _ _ _ Hurl).
  - rewrite (whole_uri_no_url _ _ Huri). by rewrite (search_whole _ _ _ Huri).
Qed.

Lemma extract_playlist_id_of_url_or_uri_witness :
  extract_playlist_id "https://open.spotify.com/playlist/37i9dQZF1DXcBWIGoYBM5M"
    = "37i9dQZF1DXcBWIGoYBM5M" ∧
  extract_playlist_id "spotify:playlist:37i9dQZF1DXcBWIGoYBM5M"
    = "37i9dQZF1DXcBWIGoYBM5M".
Proof.
  split.
  - apply extract_playlist_id_of_url_or_uri. left.
    split; [reflexivity | split; [discriminate | reflexivity]].
  - apply extract_playlist_id_of_url_or_uri. right.
    split; [reflexivity | split; [discriminate | reflexivity]].
Defined.

(** C3. An input in which neither the web-address pattern nor the URI pattern
    matches anywhere is returned unchanged. *)
Theorem extract_playlist_id_passthrough (s : string) :
  ¬ ReSpec.occurs url_pattern s → ¬ ReSpec.occurs uri_pattern s →
  extract_playlist_id s = s.
Proof.
  intros Hurl%search_None Huri%search_None.
  unfold extract_playlist_id. by rewrite Hurl, Huri.
Qed.

Lemma extract_playlist_id_passthrough_witness :
  extract_playlist_id "open.spotify.com/playlist/?x=1" = "open.spotify.com/playlist/?x=1".
Proof.
  apply extract_playlist_id_passthrough; apply search_None; vm_compute; reflexivity.
Defined.

(** C4. The web-address pattern is tried first: when both patterns match in
    the input, the result is the group captured by the web-address pattern,
    wherever the URI match stands. *)
Theorem extract_playlist_id_url_first (s url_id uri_id : string) :
  ReSpec.first_match url_pattern s url_id →
  ReSpec.first_match uri_pattern s uri_id →
  extract_playlist_id s = url_id.
Proof.
  intros Hurl%search_Some _. unfold extract_playlist_id. by rewrite Hurl.
Qed.

Lemma extract_playlist_id_url_first_witness :
  extract_playlist_id "spotify:playlist:AAA1 https://open.spotify.com/playlist/BBB2"
    = "BBB2".
Proof.
  apply (extract_playlist_id_url_first _ "BBB2" "AAA1");
    apply search_Some; vm_compute; reflexivity.
Defined.

(** C7. [extract_playlist_id] is a total function of its argument alone: on
    every input it returns a string, equal inputs give equal results, and
    the result is the input itself or the group of the leftmost match of one
    of the two patterns. *)
Theorem extract_playlist_id_total (s1 s2 : string) :
  s1 = s2 →
  ∃ r, extract_playlist_id s1 = r ∧ extract_playlist_id s2 = r ∧
       (r = s1 ∨ ReSpec.first_match url_pattern s1 r
               ∨ ReSpec.first_match uri_pattern s1 r).
Proof.
  intros <-. exists (extract_playlist_id s1). split_and!; [done | done |].
  unfold extract_playlist_id.
  destruct (Re.search url_pattern s1) as [g|] eqn:Hurl.
  - right. left. by apply search_Some.
  - destruct (Re.search uri_pattern s1) as [g|] eqn:Huri.
    + right. right. by apply search_Some.
    + by left.
Qed.

Lemma extract_playlist_id_total_witness :
  ∃ r, extract_playlist_id "spotify:playlist:abc" = r ∧
       extract_playlist_id "spotify:playlist:abc" = r ∧
       (r = "spotify:playlist:abc"
        ∨ ReSpec.first_match url_pattern "spotify:playlist:abc" r
        ∨ ReSpec.first_match uri_pattern "spotify:playlist:abc" r).
Proof. apply extract_playlist_id_total. reflexivity. Defined.

Lemma extract_playlist_id_truthy (s : string) :
  Str.truthy s = true → Str.truthy (extract_playlist_id s) = true.
Proof.
  intros Hs. unfold extract_playlist_id.
  destruct (Re.search url_pattern s) as [g|] eqn:Hurl.
  - apply truthy_nonempty. by apply search_group_nonempty in Hurl as [? _].
  - destruct (Re.search uri_pattern s) as [g|] eqn:Huri; [|done].
    apply truthy_nonempty. by apply search_group_nonempty in Huri as [? _].
Qed.

(** * The filter of [remove_artist_tracks] *)

Lemma scan_artists_spec (t : track) (acc : list string) :
  scan_artists t acc = acc ++ replicate (credits t) (track_uri t).
Proof.
  unfold scan_artists, credits. revert acc.
  induction (track_artists t) as [|a l IH]; intros acc; simpl.
  - by rewrite app_nil_r.
  - rewrite IH. unfold is_kanye at 2. case_decide as Ha.
    + rewrite bool_decide_eq_true_2 by done. simpl. by rewrite <-app_assoc.
    + by rewrite bool_decide_eq_false_2 by done.
Qed.

(** The two nested loops compute the closed form. *)
Lemma filter_tracks_spec (items : list playlist_item) :
  filter_tracks items = credit_uris items.
Proof.
  unfold filter_tracks. rewrite <-(app_nil_l (credit_uris items)).
  generalize (@nil string). induction items as [|it items IH]; intros acc; simpl.
  - by rewrite app_nil_r.
  - rewrite IH, scan_artists_spec. by rewrite <-app_assoc.
Qed.

Lemma credited_credits (it : playlist_item) :
  credited it = true ↔ (0 < credits (item_track it))%nat.
Proof.
  unfold credited, credits.
  induction (track_artists (item_track it)) as [|a l IH]; simpl.
  - split; [done | lia].
  - destruct (is_kanye a); simpl; [split; [lia | done] | done].
Qed.

Lemma not_credited_credits (it : playlist_item) :
  credited it = false ↔ credits (item_track it) = 0%nat.
Proof.
  rewrite <-not_true_iff_false, credited_credits. lia.
Qed.

Lemma elem_of_matching (items : list playlist_item) (it : playlist_item) :
  it ∈ matching items ↔ it ∈ items ∧ credited it = true.
Proof. unfold matching. rewrite !list_elem_of_In. apply filter_In. Qed.

Lemma elem_of_credit_uris (items : list playlist_item) (u : string) :
  u ∈ credit_uris items ↔ ∃ it, it ∈ matching items ∧ item_uri it = u.
Proof.
  unfold credit_uris. rewrite list_elem_of_In, in_flat_map. split.
  - intros (it & Hit & Hu). apply list_elem_of_In in Hit, Hu.
    apply elem_of_replicate in Hu as [-> Hn]. exists it. split; [|done].
    apply elem_of_matching. split; [done |]. apply credited_credits. lia.
  - intros (it & [Hit Hc]%elem_of_matching & <-). exists it.
    rewrite <-!list_elem_of_In. split; [done |].
    apply elem_of_replicate. split; [done |]. apply credited_credits in Hc. lia.
Qed.

Lemma credit_uris_nil (items : list playlist_item) :
  credit_uris items = [] ↔ matching items = [].
Proof.
  unfold credit_uris, matching. induction items as [|it items IH]; simpl; [done |].
  destruct (credited it) eqn:Hc.
  - apply credited_credits in Hc.
    destruct (credits (item_track it)); [lia |]. simpl. split; done.
  - apply not_credited_credits in Hc. rewrite Hc. simpl. done.
Qed.

(** With at most one credit per track the payload has one entry per matching
    track. *)
Lemma credit_uris_single (items : list playlist_item) :
  (∀ it, it ∈ items → (credits (item_track it) ≤ 1)%nat) →
  credit_uris items = map item_uri (matching items).
Proof.
  unfold credit_uris, matching. induction items as [|it items IH]; simpl; [done |].
  intros Hone. rewrite IH by (intros; apply Hone; by right).
  destruct (credited it) eqn:Hc.
  - apply credited_credits in Hc.
    assert (credits (item_track it) = 1%nat) as ->; [|done].
    specialize (Hone it (list_elem_of_here _ _)). lia.
  - apply not_credited_credits in Hc. by rewrite Hc.
Qed.

Lemma count_not_elem (x : string) (l : list string) :
  x ∉ l → Str.count x l = 0%nat.
Proof.
  induction l as [|y l IH]; simpl; [done |].
  intros [Hxy Hl]%not_elem_of_cons. rewrite IH by done. by case_decide.
Qed.

Lemma count_NoDup (x : string) (l : list string) :
  NoDup l → x ∈ l → Str.count x l = 1%nat.
Proof.
  induction 1 as [|y l Hy Hl IH]; simpl.
  - by intros ?%elem_of_nil.
  - intros [-> | Hx]%elem_of_cons.
    + rewrite count_not_elem by done. by case_decide.
    + rewrite IH by done. case_decide; [congruence | done].
Qed.

Lemma credit_uris_deduplicated (items : list playlist_item) :
  (∀ it, it ∈ items → (credits (item_track it) ≤ 1)%nat) →
  NoDup (map item_uri (matching items)) →
  deduplicated items (credit_uris items).
Proof.
  intros Hone Hnd. rewrite (credit_uris_single _ Hone).
  split_and!; [by rewrite length_map | done |].
  intros it Hit. apply count_NoDup; [done |].
  apply list_elem_of_fmap. by exists it.
Qed.

(** * The views *)

Local Arguments String.append : simpl never.

Ltac run_io := unfold run, mbind, IO_bind, mret, IO_ret, raise, send.

(** The run of [/remove_tracks] once the form is complete and the playlist's
    tracks were fetched. *)
Lemma remove_artist_tracks_run (http : request → response)
    (form : gmap string string) (token input : string) (items : list playlist_item) :
  form !! "access_token" = Some token → token ≠ "" →
  form !! "playlist_input" = Some input → input ≠ "" →
  let pid := extract_playlist_id input in
  status_code (http (fetch_request token pid)) = 200 →
  json (http (fetch_request token pid)) = JsonPlaylistTracks items →
  run (remove_artist_tracks http form) =
  match credit_uris items with
  | [] =>
      (Return (Some (RenderTemplate "remove_tracks.html"
         [("message", "No tracks to remove.")])),
       [fetch_request token pid])
  | uris =>
      let remove_response := http (delete_request token pid uris) in
      (Return (Some (
         if status_code remove_response =? 200 then
           RenderTemplate "remove_tracks.html"
             [("message", "Tracks removed successfully!")]
         else
           RenderTemplate "callback.html"
             [("error", "Failed to remove tracks: " +:+ text remove_response)])),
       [fetch_request token pid; delete_request token pid uris])
  end.
Proof.
  intros Htok Htne Hin Hine pid Hst Hjs.
  unfold remove_artist_tracks. rewrite Htok, Hin. simpl.
  apply truthy_nonempty in Htne, Hine. rewrite Htne, Hine. simpl.
  rewrite (extract_playlist_id_truthy _ Hine). simpl.
  run_io. simpl. fold pid. unfold fetch_request in Hst, Hjs.
  rewrite Hst. simpl. unfold json_items. rewrite Hjs. simpl.
  rewrite filter_tracks_spec. destruct (credit_uris items) as [|u uris]; [done |].
  simpl. unfold delete_request. by destruct (_ =? 200).
Qed.

(** Whatever the form and the remote service, at most one DELETE is sent. *)
Lemma remove_artist_tracks_one_delete (http : request → response)
    (form : gmap string string) :
  (delete_calls (snd (run (remove_artist_tracks http form))) ≤ 1)%nat.
Proof.
  unfold delete_calls, remove_artist_tracks.
  destruct (negb _ || negb _); [run_io; simpl; lia |].
  destruct (negb (Str.truthy _)); [run_io; simpl; lia |].
  run_io. simpl. destruct (negb _); [simpl; lia |].
  unfold json_items. destruct (json _) as [fields|items|]; run_io; simpl; try lia.
  destruct (filter_tracks items); simpl; [lia |].
  destruct (_ =? 200); simpl; lia.
Qed.

Lemma count_app (x : string) (l1 l2 : list string) :
  Str.count x (l1 ++ l2) = (Str.count x l1 + Str.count x l2)%nat.
Proof. induction l1 as [|y l1 IH]; simpl; [done | rewrite IH; lia]. Qed.

Lemma count_replicate (x y : string) (n : nat) :
  Str.count x (replicate n y) = if decide (x = y) then n else 0%nat.
Proof.
  induction n as [|n IH]; simpl; [by case_decide |].
  rewrite IH. case_decide; lia.
Qed.

(** A URI occurs in the payload once per credit of the target artist on a
    track with that URI. *)
Lemma count_credit_uris (u : string) (items : list playlist_item) :
  Str.count u (credit_uris items) =
  sum_list (map (λ it, if decide (u = item_uri it)
                       then credits (item_track it) else 0%nat) items).
Proof.
  unfold credit_uris. induction items as [|it items IH]; simpl; [done |].
  by rewrite count_app, count_replicate, IH.
Qed.

(** C1 (amended). At most one DELETE is sent, whatever the responses.  After a
    successful fetch with matching tracks the trace is the fetch followed by
    one DELETE whose payload lists, in playlist order, each track's URI once
    per credit of the target artist on it: the payload holds only URIs of
    matching tracks and each of them at least once, and it is deduplicated
    (one entry per matching track, no URI twice) when no track credits the
    target artist more than once and the matching tracks have distinct
    URIs. *)
Theorem remove_artist_tracks_delete_payload (http : request → response)
    (form : gmap string string) :
  (delete_calls (snd (run (remove_artist_tracks http form))) ≤ 1)%nat ∧
  ∀ (token input : string) (items : list playlist_item),
    form !! "access_token" = Some token → token ≠ "" →
    form !! "playlist_input" = Some input → input ≠ "" →
    let pid := extract_playlist_id input in
    status_code (http (fetch_request token pid)) = 200 →
    json (http (fetch_request token pid)) = JsonPlaylistTracks items →
    (matching items ≠ [] →
       snd (run (remove_artist_tracks http form)) =
       [fetch_request token pid; delete_request token pid (credit_uris items)]) ∧
    (∀ u, Str.count u (credit_uris items) =
          sum_list (map (λ it, if decide (u = item_uri it)
                               then credits (item_track it) else 0%nat) items)) ∧
    (∀ it, it ∈ matching items → item_uri it ∈ credit_uris items) ∧
    (∀ u, u ∈ credit_uris items → ∃ it, it ∈ matching items ∧ item_uri it = u) ∧
    ((∀ it, it ∈ items → (credits (item_track it) ≤ 1)%nat) →
     NoDup (map item_uri (matching items)) →
     deduplicated items (credit_uris items)).
Proof.
  split; [apply remove_artist_tracks_one_delete |].
  intros token input items Htok Htne Hin Hine pid Hst Hjs. split_and!.
  - intros Hm. rewrite (remove_artist_tracks_run _ _ _ _ _ Htok Htne Hin Hine Hst Hjs).
    fold pid. destruct (credit_uris items) as [|u uris] eqn:Hu; [|done].
    by apply credit_uris_nil in Hu.
  - intros u. apply count_credit_uris.
  - intros it Hit. apply elem_of_credit_uris. by exists it.
  - intros u. apply elem_of_credit_uris.
  - apply credit_uris_deduplicated.
Qed.

Lemma remove_artist_tracks_delete_payload_witness :
  snd (run (remove_artist_tracks (Scenario.playlist_service Scenario.mixed) Scenario.form)) =
    [fetch_request "tok" "abc";
     delete_request "tok" "abc" ["spotify:track:1"; "spotify:track:3"]] ∧
  deduplicated Scenario.mixed ["spotify:track:1"; "spotify:track:3"].
Proof.
  destruct (remove_artist_tracks_delete_payload
              (Scenario.playlist_service Scenario.mixed) Scenario.form) as [_ H].
  destruct (H "tok" "spotify:playlist:abc" Scenario.mixed)
    as (Htrace & _ & _ & _ & Hdedup);
    [reflexivity | discriminate | reflexivity | discriminate
    | reflexivity | reflexivity |].
  split.
  - apply Htrace. discriminate.
  - apply Hdedup.
    + apply Forall_forall. apply (bool_decide_unpack _). vm_compute. exact I.
    + apply (bool_decide_unpack _). vm_compute. exact I.
Defined.

(** C1 as stated fails: a track on which the target artist is credited twice
    is one matching track, and its URI is sent twice in the one DELETE, so
    it is not true that each matching track's URI appears exactly once. *)
Lemma delete_payload_repeats_uri :
  length (matching Scenario.credited_twice) = 1%nat ∧
  snd (run (remove_artist_tracks
              (Scenario.playlist_service Scenario.credited_twice) Scenario.form)) =
    [fetch_request "tok" "abc";
     delete_request "tok" "abc" ["spotify:track:1"; "spotify:track:1"]] ∧
  ¬ (∀ it, it ∈ matching Scenario.credited_twice →
       Str.count (item_uri it) ["spotify:track:1"; "spotify:track:1"] = 1%nat) ∧
  ¬ deduplicated Scenario.credited_twice ["spotify:track:1"; "spotify:track:1"].
Proof.
  assert (¬ (∀ it, it ∈ matching Scenario.credited_twice →
       Str.count (item_uri it) ["spotify:track:1"; "spotify:track:1"] = 1%nat))
    as Hcount.
  { intros Hall.
    specialize (Hall (Scenario.item "spotify:track:1" [Scenario.kanye; Scenario.kanye])
                  (list_elem_of_here _ _)).
    discriminate Hall. }
  split_and!; [reflexivity | reflexivity | exact Hcount |].
  intros (_ & _ & Hall). exact (Hcount Hall).
Qed.

Lemma no_artist_no_credit (items : list playlist_item) :
  (∀ it a, it ∈ items → a ∈ track_artists (item_track it) → artist_id a ≠ kanye_id) →
  credit_uris items = [].
Proof.
  intros Hno. apply credit_uris_nil. unfold matching.
  induction items as [|it items IH]; simpl; [done |].
  assert (credited it = false) as ->.
  { unfold credited. apply not_true_iff_false. intros (a & Ha & Hk)%existsb_exists.
    apply list_elem_of_In in Ha. apply bool_decide_eq_true in Hk.
    by apply (Hno it a (list_elem_of_here _ _) Ha). }
  apply IH. intros it' a Hit'. apply Hno. by right.
Qed.

(** C5 (amended). When no artist of any fetched track is the target, the view
    sends the fetch and nothing else, so no DELETE, and renders the success
    template [remove_tracks.html] with the message [No tracks to remove.] *)
Theorem remove_artist_tracks_nothing_to_remove (http : request → response)
    (form : gmap string string) (token input : string) (items : list playlist_item) :
  form !! "access_token" = Some token → token ≠ "" →
  form !! "playlist_input" = Some input → input ≠ "" →
  status_code (http (fetch_request token (extract_playlist_id input))) = 200 →
  json (http (fetch_request token (extract_playlist_id input))) = JsonPlaylistTracks items →
  (∀ it a, it ∈ items → a ∈ track_artists (item_track it) → artist_id a ≠ kanye_id) →
  run (remove_artist_tracks http form) =
    (Return (Some (RenderTemplate "remove_tracks.html"
       [("message", "No tracks to remove.")])),
     [fetch_request token (extract_playlist_id input)]) ∧
  delete_calls (snd (run (remove_artist_tracks http form))) = 0%nat.
Proof.
  intros Htok Htne Hin Hine Hst Hjs Hno.
  rewrite (remove_artist_tracks_run _ _ _ _ _ Htok Htne Hin Hine Hst Hjs).
  rewrite (no_artist_no_credit _ Hno). done.
Qed.

Lemma remove_artist_tracks_nothing_to_remove_witness :
  run (remove_artist_tracks (Scenario.playlist_service Scenario.foreign) Scenario.form) =
    (Return (Some (RenderTemplate "remove_tracks.html"
       [("message", "No tracks to remove.")])),
     [fetch_request "tok" "abc"]) ∧
  delete_calls (snd (run (remove_artist_tracks
    (Scenario.playlist_service Scenario.foreign) Scenario.form))) = 0%nat.
Proof.
  apply (remove_artist_tracks_nothing_to_remove
           (Scenario.playlist_service Scenario.foreign) Scenario.form
           "tok" "spotify:playlist:abc" Scenario.foreign);
    [reflexivity | discriminate | reflexivity | discriminate
    | reflexivity | reflexivity |].
  intros it a Hit Ha.
  apply list_elem_of_In in Hit. simpl in Hit.
  destruct Hit as [<- | [<- | []]]; apply list_elem_of_In in Ha; simpl in Ha;
    destruct Ha as [<- | []]; discriminate.
Defined.

(** C5 as stated fails: with no track of the target artist the rendered
    message ends in a full stop, it is not [No tracks to remove!]. *)
Lemma nothing_to_remove_message_differs :
  matching Scenario.foreign = [] ∧
  fst (run (remove_artist_tracks
              (Scenario.playlist_service Scenario.foreign) Scenario.form)) ≠
    Return (Some (RenderTemplate "remove_tracks.html"
      [("message", "No tracks to remove!")])).
Proof. split; [reflexivity | discriminate]. Qed.

(** * [/callback] *)

(** C6. When the callback carries a code and no error, and the token endpoint
    answers with a status other than 200, the view renders [callback.html]
    with an error message that ends with the response body, character for
    character, and therefore does not redirect. *)
Theorem callback_token_failure (http : request → response) (cfg : config)
    (args : gmap string string) (code : string) :
  args !! "error" = None → args !! "code" = Some code →
  status_code (http (token_request cfg code)) ≠ 200 →
  run (callback http cfg args) =
    (Return (Some (RenderTemplate "callback.html"
       [("error", "Failed to retrieve access token: "
                  +:+ text (http (token_request cfg code)))])),
     [token_request cfg code]) ∧
  ∀ endpoint values,
    fst (run (callback http cfg args)) ≠ Return (Some (Redirect endpoint values)).
Proof.
  intros Herr Hcode Hst. unfold callback. rewrite Herr, Hcode.
  run_io. simpl. apply Z.eqb_neq in Hst. rewrite Hst. done.
Qed.

Lemma callback_token_failure_witness :
  run (callback Scenario.rejecting_service Scenario.cfg {["code" := "AQB"]}) =
    (Return (Some (RenderTemplate "callback.html"
       [("error", "Failed to retrieve access token: invalid_grant")])),
     [token_request Scenario.cfg "AQB"]) ∧
  ∀ endpoint values,
    fst (run (callback Scenario.rejecting_service Scenario.cfg {["code" := "AQB"]}))
    ≠ Return (Some (Redirect endpoint values)).
Proof.
  apply (callback_token_failure Scenario.rejecting_service Scenario.cfg
           {["code" := "AQB"]} "AQB");
    [reflexivity | reflexivity | vm_compute; discriminate].
Defined.

(** C10. A callback whose query has neither [error] nor [code] sends no
    request and returns [None]: no template is rendered and no redirect is
    made. *)
Theorem callback_falls_through (http : request → response) (cfg : config)
    (args : gmap string string) :
  args !! "error" = None → args !! "code" = None →
  run (callback http cfg args) = (Return None, []).
Proof. intros Herr Hcode. unfold callback. by rewrite Herr, Hcode. Qed.

Lemma callback_falls_through_witness :
  run (callback Scenario.rejecting_service Scenario.cfg {["state" := "xyz"]})
  = (Return None, []).
Proof. apply callback_falls_through; reflexivity. Defined.

(** * Startup *)

(** C8. When [SPOTIFY_CLIENT_ID] or [SPOTIFY_CLIENT_SECRET] is absent from
    the environment, importing the module raises [ValueError], and the
    process serves none of the incoming requests. *)
Theorem startup_fails_fast (environ : gmap string string)
    (http : request → response) (reqs : list incoming) :
  environ !! "SPOTIFY_CLIENT_ID" = None ∨ environ !! "SPOTIFY_CLIENT_SECRET" = None →
  load_config environ =
    Raise (ValueError "Client ID or Client Secret not found in environment variables.") ∧
  serve environ http reqs =
    Raise (ValueError "Client ID or Client Secret not found in environment variables.").
Proof.
  intros Habsent. unfold serve.
  assert (load_config environ = Raise (ValueError
    "Client ID or Client Secret not found in environment variables.")) as ->; [|done].
  unfold load_config. destruct Habsent as [-> | ->]; simpl; [done |].
  by rewrite orb_true_r.
Qed.

Lemma startup_fails_fast_witness :
  load_config {["SPOTIFY_CLIENT_ID" := "abc"]} =
    Raise (ValueError "Client ID or Client Secret not found in environment variables.") ∧
  serve {["SPOTIFY_CLIENT_ID" := "abc"]} Scenario.rejecting_service
        [GetCallback {["code" := "AQB"]}] =
    Raise (ValueError "Client ID or Client Secret not found in environment variables.").
Proof. apply startup_fails_fast. right. reflexivity. Defined.

(** * The dead branch of [/remove_tracks] *)

(** C9. A non-empty input gives a non-empty playlist identifier, so the view
    never answers with the error [Invalid playlist URL or URI.], whatever the
    form and the remote service. *)
Theorem invalid_playlist_unreachable :
  (∀ s, s ≠ "" → extract_playlist_id s ≠ "") ∧
  ∀ (http : request → response) (form : gmap string string),
    fst (run (remove_artist_tracks http form)) ≠
    Return (Some (RenderTemplate "callback.html"
      [("error", "Invalid playlist URL or URI.")])).
Proof.
  split.
  - intros s Hs%truthy_nonempty. by apply truthy_nonempty, extract_playlist_id_truthy.
  - intros http form. unfold remove_artist_tracks.
    destruct (truthy_opt (form !! "access_token")); simpl; [|run_io; discriminate].
    destruct (form !! "playlist_input") as [input|]; simpl; [|run_io; discriminate].
    destruct (Str.truthy input) eqn:Hin; simpl; [|run_io; discriminate].
    rewrite (extract_playlist_id_truthy _ Hin). simpl.
    run_io. simpl. destruct (negb _); [simpl; discriminate |].
    unfold json_items. destruct (json _) as [fields|items|]; run_io; simpl;
      try discriminate.
    destruct (filter_tracks items); simpl; [discriminate |].
    destruct (_ =? 200); simpl; discriminate.
Qed.

Lemma invalid_playlist_unreachable_witness :
  extract_playlist_id "?" ≠ "" ∧
  fst (run (remove_artist_tracks (Scenario.playlist_service []) {["access_token" := "tok"; "playlist_input" := "?"]})) ≠
    Return (Some (RenderTemplate "callback.html"
      [("error", "Invalid playlist URL or URI.")])).
Proof.
  destruct invalid_playlist_unreachable as [Hid Hview].
  split; [apply Hid; discriminate | apply Hview].
Defined.

(** * Further properties of [extract_playlist_id] *)

(** A text whose characters all satisfy [p] holds no match of a pattern
    whose literal has a character outside [p]. *)
Lemma search_all_None (p : ascii → bool) (lit s : string) :
  Str.all p s = true → Str.all p lit = false → Re.search lit s = None.
Proof.
  intros Hs Hlit. apply search_None. intros (pre & g & rest & -> & _).
  rewrite !all_append in Hs.
  apply andb_prop in Hs as [_ Hs]. apply andb_prop in Hs as [Hs _]. congruence.
Qed.

Lemma extract_playlist_id_alnum (s : string) :
  Str.all Re.is_alnum s = true → extract_playlist_id s = s.
Proof.
  intros Hs. unfold extract_playlist_id.
  rewrite (search_all_None Re.is_alnum url_pattern s Hs) by (by vm_compute).
  by rewrite (search_all_None Re.is_alnum uri_pattern s Hs) by (by vm_compute).
Qed.

(** X1. A bare identifier, i.e. any text made of ASCII letters and digits
    only (the empty text included), is returned as it is. *)
Theorem extract_playlist_id_bare (s : string) :
  Str.all Re.is_alnum s = true → extract_playlist_id s = s.
Proof. apply extract_playlist_id_alnum. Qed.

Lemma extract_playlist_id_bare_witness :
  extract_playlist_id "37i9dQZF1DXcBWIGoYBM5M" = "37i9dQZF1DXcBWIGoYBM5M".
Proof. apply extract_playlist_id_bare. reflexivity. Defined.

(** X2. Extraction is idempotent: what it returns is an identifier it
    returns unchanged when applied again. *)
Theorem extract_playlist_id_idempotent (s : string) :
  extract_playlist_id (extract_playlist_id s) = extract_playlist_id s.
Proof.
  unfold extract_playlist_id at 2 3.
  destruct (Re.search url_pattern s) as [g|] eqn:Hurl.
  - apply extract_playlist_id_alnum. by apply search_group_nonempty in Hurl as [_ ?].
  - destruct (Re.search uri_pattern s) as [g|] eqn:Huri.
    + apply extract_playlist_id_alnum. by apply search_group_nonempty in Huri as [_ ?].
    + unfold extract_playlist_id. by rewrite Hurl, Huri.
Qed.

Lemma first_match_substring (lit s g : string) :
  ReSpec.first_match lit s g → substring g s.
Proof.
  intros (pre & rest & (-> & _) & _). exists (pre +:+ lit), rest.
  by rewrite append_assoc.
Qed.

(** X3. The result is always a contiguous piece of the input: extraction
    never invents or rewrites characters. *)
Theorem extract_playlist_id_substring (s : string) :
  substring (extract_playlist_id s) s.
Proof.
  unfold extract_playlist_id.
  destruct (Re.search url_pattern s) as [g|] eqn:Hurl.
  - by apply (first_match_substring url_pattern), search_Some.
  - destruct (Re.search uri_pattern s) as [g|] eqn:Huri.
    + by apply (first_match_substring uri_pattern), search_Some.
    + exists "", "". by rewrite append_nil_r.
Qed.

(** X4. The patterns are searched for, not anchored: whatever text stands
    around it, the identifier of the leftmost web address is returned, and
    the identifier of the leftmost URI when the input holds no web address. *)
Theorem extract_playlist_id_embedded (s id : string) :
  ReSpec.first_match url_pattern s id ∨
  (¬ ReSpec.occurs url_pattern s ∧ ReSpec.first_match uri_pattern s id) →
  extract_playlist_id s = id.
Proof.
  unfold extract_playlist_id.
  intros [Hurl%search_Some | [Hno%search_None Huri%search_Some]].
  - by rewrite Hurl.
  - by rewrite Hno, Huri.
Qed.

Lemma extract_playlist_id_embedded_witness :
  extract_playlist_id "https://open.spotify.com/playlist/37i9dQZF1DXcBWIGoYBM5M?si=4f2a"
    = "37i9dQZF1DXcBWIGoYBM5M" ∧
  extract_playlist_id "play spotify:playlist:abc123, please" = "abc123".
Proof.
  split.
  - apply extract_playlist_id_embedded. left.
    apply search_Some. vm_compute. reflexivity.
  - apply extract_playlist_id_embedded. right. split.
    + apply search_None. vm_compute. reflexivity.
    + apply search_Some. vm_compute. reflexivity.
Defined.

(** * Further properties of the filter *)

(** X5. The filter works track by track and keeps the playlist order: the
    payload of a concatenated listing is the concatenation of the
    payloads. *)
Theorem filter_tracks_app (items1 items2 : list playlist_item) :
  filter_tracks (items1 ++ items2) = filter_tracks items1 ++ filter_tracks items2.
Proof.
  rewrite !filter_tracks_spec. unfold credit_uris. apply flat_map_app.
Qed.

(** X6. The payload has one entry per credit of the target artist, summed
    over the tracks; tracks without such a credit contribute nothing, so
    filtering only the matching tracks gives the same payload. *)
Theorem filter_tracks_length (items : list playlist_item) :
  length (filter_tracks items) =
    sum_list (map (λ it, credits (item_track it)) items) ∧
  filter_tracks (matching items) = filter_tracks items.
Proof.
  rewrite !filter_tracks_spec. unfold credit_uris, matching. split.
  - induction items as [|it items IH]; simpl; [done |].
    by rewrite length_app, length_replicate, IH.
  - induction items as [|it items IH]; simpl; [done |].
    destruct (credited it) eqn:Hc; simpl; rewrite IH; [done |].
    apply not_credited_credits in Hc. by rewrite Hc.
Qed.

(** * Further properties of the views *)

(** X7. [/select_playlist] sends no request.  Without an access token, or
    with an empty one, it renders the error page; otherwise it renders the
    form and hands the token on unchanged. *)
Theorem select_playlist_outcome (args : gmap string string) :
  (missing (args !! "access_token") →
   run (select_playlist args) =
     (Return (Some (RenderTemplate "callback.html"
        [("error", "Access token missing.")])), [])) ∧
  (∀ token, args !! "access_token" = Some token → token ≠ "" →
   run (select_playlist args) =
     (Return (Some (RenderTemplate "select_playlist.html"
        [("access_token", token)])), [])).
Proof.
  unfold select_playlist. split.
  - by intros [-> | ->].
  - intros token -> Hne%truthy_nonempty. simpl. by rewrite Hne.
Qed.

Lemma select_playlist_outcome_witness :
  run (select_playlist {["access_token" := ""]}) =
    (Return (Some (RenderTemplate "callback.html"
       [("error", "Access token missing.")])), []) ∧
  run (select_playlist {["access_token" := "BQD"]}) =
    (Return (Some (RenderTemplate "select_playlist.html"
       [("access_token", "BQD")])), []).
Proof.
  split.
  - apply (proj1 (select_playlist_outcome {["access_token" := ""]})).
    right. reflexivity.
  - apply (proj2 (select_playlist_outcome {["access_token" := "BQD"]}) "BQD");
      [reflexivity | discriminate].
Defined.

(** X8. An [error] parameter wins over everything else in the query of
    [/callback]: its value is shown on the error page and the token endpoint
    is not contacted, even when a [code] is present too. *)
Theorem callback_error_first (http : request → response) (cfg : config)
    (args : gmap string string) (err : string) :
  args !! "error" = Some err →
  run (callback http cfg args) =
    (Return (Some (RenderTemplate "callback.html" [("error", err)])), []).
Proof. intros Herr. unfold callback. by rewrite Herr. Qed.

Lemma callback_error_first_witness :
  run (callback Scenario.granting_service Scenario.cfg
         (<["error" := "access_denied"]> {["code" := "AQB"]})) =
    (Return (Some (RenderTemplate "callback.html" [("error", "access_denied")])), []).
Proof. apply callback_error_first. reflexivity. Defined.

(** X9. When the token endpoint answers 200 with an access token and a
    refresh token, [/callback] redirects to [select_playlist] carrying the
    access token unchanged, after exactly one request; the refresh token is
    not passed on. *)
Theorem callback_success (http : request → response) (cfg : config)
    (args fields : gmap string string) (code access refresh : string) :
  args !! "error" = None → args !! "code" = Some code →
  status_code (http (token_request cfg code)) = 200 →
  json (http (token_request cfg code)) = JsonFields fields →
  fields !! "access_token" = Some access →
  fields !! "refresh_token" = Some refresh →
  run (callback http cfg args) =
    (Return (Some (Redirect "select_playlist" [("access_token", access)])),
     [token_request cfg code]).
Proof.
  intros Herr Hcode Hst Hjs Hacc Href. unfold callback. rewrite Herr, Hcode.
  run_io. simpl. rewrite Hst. simpl. unfold json_field. rewrite Hjs, Hacc, Href.
  done.
Qed.

Lemma callback_success_witness :
  run (callback Scenario.granting_service Scenario.cfg {["code" := "AQB"]}) =
    (Return (Some (Redirect "select_playlist" [("access_token", "BQD")])),
     [token_request Scenario.cfg "AQB"]).
Proof.
  apply (callback_success Scenario.granting_service Scenario.cfg {["code" := "AQB"]}
           (<["access_token" := "BQD"]> {["refresh_token" := "AQC"]})
           "AQB" "BQD" "AQC"); reflexivity.
Defined.

(** X10. The refresh token is read although it is never used: a 200 answer
    of the token endpoint that has an access token and no refresh token
    makes [/callback] raise [KeyError] instead of redirecting. *)
Theorem callback_needs_refresh_token (http : request → response) (cfg : config)
    (args fields : gmap string string) (code access : string) :
  args !! "error" = None → args !! "code" = Some code →
  status_code (http (token_request cfg code)) = 200 →
  json (http (token_request cfg code)) = JsonFields fields →
  fields !! "access_token" = Some access →
  fields !! "refresh_token" = None →
  run (callback http cfg args) =
    (Raise (KeyError "refresh_token"), [token_request cfg code]).
Proof.
  intros Herr Hcode Hst Hjs Hacc Href. unfold callback. rewrite Herr, Hcode.
  run_io. simpl. rewrite Hst. simpl. unfold json_field. rewrite Hjs, Hacc, Href.
  done.
Qed.

Lemma callback_needs_refresh_token_witness :
  run (callback Scenario.no_refresh_service Scenario.cfg {["code" := "AQB"]}) =
    (Raise (KeyError "refresh_token"), [token_request Scenario.cfg "AQB"]).
Proof.
  apply (callback_needs_refresh_token Scenario.no_refresh_service Scenario.cfg
           {["code" := "AQB"]} {["access_token" := "BQD"]} "AQB" "BQD"); reflexivity.
Defined.

(** X11. [/callback] sends at most one request, and any request it sends
    is the POST of the code in the query to the token endpoint: the client
    secret goes nowhere else. *)
Theorem callback_requests (http : request → response) (cfg : config)
    (args : gmap string string) :
  snd (run (callback http cfg args)) = [] ∨
  ∃ code, args !! "code" = Some code ∧
          snd (run (callback http cfg args)) = [token_request cfg code].
Proof.
  unfold callback. destruct (args !! "error"); [by left |].
  destruct (args !! "code") as [code|]; [|by left].
  right. exists code. split; [done |]. run_io. simpl.
  destruct (_ =? 200); [|done]. unfold json_field.
  destruct (json _) as [fields| |]; try done.
  destruct (fields !! "access_token"); [|done].
  by destruct (fields !! "refresh_token").
Qed.

(** X12. [/remove_tracks] without an access token or without a playlist
    input (absent or empty) renders the error page and contacts nobody. *)
Theorem remove_artist_tracks_missing_input (http : request → response)
    (form : gmap string string) :
  missing (form !! "access_token") ∨ missing (form !! "playlist_input") →
  run (remove_artist_tracks http form) =
    (Return (Some (RenderTemplate "callback.html"
       [("error", "Access token or playlist input missing.")])), []).
Proof.
  unfold remove_artist_tracks. intros [[-> | ->] | [-> | ->]]; simpl; try done.
  all: by rewrite orb_true_r.
Qed.

Lemma remove_artist_tracks_missing_input_witness :
  run (remove_artist_tracks (Scenario.playlist_service Scenario.mixed)
         {["access_token" := "tok"]}) =
    (Return (Some (RenderTemplate "callback.html"
       [("error", "Access token or playlist input missing.")])), []).
Proof.
  apply remove_artist_tracks_missing_input. right. left. reflexivity.
Defined.

(** The run of [/remove_tracks] up to the answer of the fetch. *)
Lemma remove_artist_tracks_fetch (http : request → response)
    (form : gmap string string) (token input : string) :
  form !! "access_token" = Some token → token ≠ "" →
  form !! "playlist_input" = Some input → input ≠ "" →
  let pid := extract_playlist_id input in
  let response := http (fetch_request token pid) in
  run (remove_artist_tracks http form) =
  if negb (status_code response =? 200) then
    (Return (Some (RenderTemplate "callback.html"
       [("error", "Failed to retrieve playlist tracks: " +:+ text response)])),
     [fetch_request token pid])
  else
    match json response with
    | JsonPlaylistTracks items =>
        match filter_tracks items with
        | [] =>
            (Return (Some (RenderTemplate "remove_tracks.html"
               [("message", "No tracks to remove.")])),
             [fetch_request token pid])
        | uris =>
            let remove_response := http (delete_request token pid uris) in
            (Return (Some (
               if status_code remove_response =? 200 then
                 RenderTemplate "remove_tracks.html"
                   [("message", "Tracks removed successfully!")]
               else
                 RenderTemplate "callback.html"
                   [("error", "Failed to remove tracks: " +:+ text remove_response)])),
             [fetch_request token pid; delete_request token pid uris])
        end
    | JsonFields _ => (Raise (KeyError "items"), [fetch_request token pid])
    | NotJson => (Raise JSONDecodeError, [fetch_request token pid])
    end.
Proof.
  intros Htok Htne Hin Hine pid response.
  unfold remove_artist_tracks. rewrite Htok, Hin. simpl.
  apply truthy_nonempty in Htne, Hine. rewrite Htne, Hine. simpl.
  rewrite (extract_playlist_id_truthy _ Hine). simpl.
  run_io. simpl. fold pid. fold (fetch_request token pid). fold response.
  destruct (negb _); [done |]. unfold json_items.
  destruct (json response) as [fields|items|]; run_io; simpl; try done.
  destruct (filter_tracks items) as [|u uris]; [done |].
  simpl. fold (delete_request token pid (u :: uris)). by destruct (_ =? 200).
Qed.

(** X13. When the fetch of the tracks is answered with a status other than
    200, the error page shows the response body and nothing is deleted: the
    fetch is the only request. *)
Theorem remove_artist_tracks_fetch_failure (http : request → response)
    (form : gmap string string) (token input : string) :
  form !! "access_token" = Some token → token ≠ "" →
  form !! "playlist_input" = Some input → input ≠ "" →
  status_code (http (fetch_request token (extract_playlist_id input))) ≠ 200 →
  run (remove_artist_tracks http form) =
    (Return (Some (RenderTemplate "callback.html"
       [("error", "Failed to retrieve playlist tracks: "
          +:+ text (http (fetch_request token (extract_playlist_id input))))])),
     [fetch_request token (extract_playlist_id input)]).
Proof.
  intros Htok Htne Hin Hine Hst%Z.eqb_neq.
  rewrite (remove_artist_tracks_fetch _ _ _ _ Htok Htne Hin Hine).
  by rewrite Hst.
Qed.

Lemma remove_artist_tracks_fetch_failure_witness :
  run (remove_artist_tracks Scenario.not_found_service Scenario.form) =
    (Return (Some (RenderTemplate "callback.html"
       [("error", "Failed to retrieve playlist tracks: Not found.")])),
     [fetch_request "tok" "abc"]).
Proof.
  apply (remove_artist_tracks_fetch_failure Scenario.not_found_service Scenario.form
           "tok" "spotify:playlist:abc");
    [reflexivity | discriminate | reflexivity | discriminate | vm_compute; discriminate].
Defined.



(** X15. When tracks match and the DELETE is answered with 200, the success
    page says [Tracks removed successfully!]. *)
Theorem remove_artist_tracks_delete_success (http : request → response)
    (form : gmap string string) (token input : string) (items : list playlist_item) :
  form !! "access_token" = Some token → token ≠ "" →
  form !! "playlist_input" = Some input → input ≠ "" →
  let pid := extract_playlist_id input in
  status_code (http (fetch_request token pid)) = 200 →
  json (http (fetch_request token pid)) = JsonPlaylistTracks items →
  matching items ≠ [] →
  status_code (http (delete_request token pid (filter_tracks items))) = 200 →
  run (remove_artist_tracks http form) =
    (Return (Some (RenderTemplate "remove_tracks.html"
       [("message", "Tracks removed successfully!")])),
     [fetch_request token pid; delete_request token pid (filter_tracks items)]).
Proof.
  intros Htok Htne Hin Hine pid Hst Hjs Hm Hdel.
  rewrite (remove_artist_tracks_fetch _ _ _ _ Htok Htne Hin Hine).
  fold pid. rewrite Hst, Hjs. simpl.
  destruct (filter_tracks items) as [|u uris] eqn:Hu.
  - rewrite filter_tracks_spec in Hu. by apply credit_uris_nil in Hu.
  - simpl. by rewrite Hdel.
Qed.

Lemma remove_artist_tracks_delete_success_witness :
  run (remove_artist_tracks (Scenario.playlist_service Scenario.mixed) Scenario.form) =
    (Return (Some (RenderTemplate "remove_tracks.html"
       [("message", "Tracks removed successfully!")])),
     [fetch_request "tok" "abc";
      delete_request "tok" "abc" ["spotify:track:1"; "spotify:track:3"]]).
Proof.
  apply (remove_artist_tracks_delete_success
           (Scenario.playlist_service Scenario.mixed) Scenario.form
           "tok" "spotify:playlist:abc" Scenario.mixed);
    [reflexivity | discriminate | reflexivity | discriminate | reflexivity
    | reflexivity | discriminate | reflexivity].
Defined.

(** X16. When tracks match and the DELETE is answered with a status other
    than 200, the error page shows the body of that answer. *)
Theorem remove_artist_tracks_delete_failure (http : request → response)
    (form : gmap string string) (token input : string) (items : list playlist_item) :
  form !! "access_token" = Some token → token ≠ "" →
  form !! "playlist_input" = Some input → input ≠ "" →
  let pid := extract_playlist_id input in
  status_code (http (fetch_request token pid)) = 200 →
  json (http (fetch_request token pid)) = JsonPlaylistTracks items →
  matching items ≠ [] →
  status_code (http (delete_request token pid (filter_tracks items))) ≠ 200 →
  run (remove_artist_tracks http form) =
    (Return (Some (RenderTemplate "callback.html"
       [("error", "Failed to remove tracks: "
          +:+ text (http (delete_request token pid (filter_tracks items))))])),
     [fetch_request token pid; delete_request token pid (filter_tracks items)]).
Proof.
  intros Htok Htne Hin Hine pid Hst Hjs Hm Hdel%Z.eqb_neq.
  rewrite (remove_artist_tracks_fetch _ _ _ _ Htok Htne Hin Hine).
  fold pid. rewrite Hst, Hjs. simpl.
  destruct (filter_tracks items) as [|u uris] eqn:Hu.
  - rewrite filter_tracks_spec in Hu. by apply credit_uris_nil in Hu.
  - simpl. by rewrite Hdel.
Qed.

Lemma remove_artist_tracks_delete_failure_witness :
  run (remove_artist_tracks (Scenario.read_only_service Scenario.mixed) Scenario.form) =
    (Return (Some (RenderTemplate "callback.html"
       [("error", "Failed to remove tracks: Forbidden.")])),
     [fetch_request "tok" "abc";
      delete_request "tok" "abc" ["spotify:track:1"; "spotify:track:3"]]).
Proof.
  apply (remove_artist_tracks_delete_failure
           (Scenario.read_only_service Scenario.mixed) Scenario.form
           "tok" "spotify:playlist:abc" Scenario.mixed);
    [reflexivity | discriminate | reflexivity | discriminate | reflexivity
    | reflexivity | discriminate | vm_compute; discriminate].
Defined.

(** X17. With a complete form the first request is always the fetch of the
    extracted playlist, with the token as bearer.  A DELETE follows only
    after a 200 answer with a track listing; it goes to the same address
    with the same header and its payload is never empty. *)
Theorem remove_artist_tracks_trace (http : request → response)
    (form : gmap string string) (token input : string) :
  form !! "access_token" = Some token → token ≠ "" →
  form !! "playlist_input" = Some input → input ≠ "" →
  let pid := extract_playlist_id input in
  let tr := snd (run (remove_artist_tracks http form)) in
  tr = [fetch_request token pid] ∨
  ∃ items u uris,
    status_code (http (fetch_request token pid)) = 200 ∧
    json (http (fetch_request token pid)) = JsonPlaylistTracks items ∧
    filter_tracks items = u :: uris ∧
    tr = [fetch_request token pid; delete_request token pid (u :: uris)].
Proof.
  intros Htok Htne Hin Hine pid tr. subst tr.
  rewrite (remove_artist_tracks_fetch _ _ _ _ Htok Htne Hin Hine). fold pid.
  destruct (status_code (http (fetch_request token pid)) =? 200) eqn:Hst;
    simpl; [|by left].
  apply Z.eqb_eq in Hst.
  destruct (json (http (fetch_request token pid))) as [fields|items|] eqn:Hjs;
    [by left | | by left].
  destruct (filter_tracks items) as [|u uris] eqn:Hu; [by left |].
  right. by exists items, u, uris.
Qed.

Lemma remove_artist_tracks_trace_witness :
  snd (run (remove_artist_tracks Scenario.not_found_service Scenario.form))
    = [fetch_request "tok" "abc"] ∨
  ∃ items u uris,
    status_code (Scenario.not_found_service (fetch_request "tok" "abc")) = 200 ∧
    json (Scenario.not_found_service (fetch_request "tok" "abc"))
      = JsonPlaylistTracks items ∧
    filter_tracks items = u :: uris ∧
    snd (run (remove_artist_tracks Scenario.not_found_service Scenario.form))
      = [fetch_request "tok" "abc"; delete_request "tok" "abc" (u :: uris)].
Proof.
  apply (remove_artist_tracks_trace Scenario.not_found_service Scenario.form
           "tok" "spotify:playlist:abc");
    [reflexivity | discriminate | reflexivity | discriminate].
Defined.

(** * Startup and the entry page *)

(** X18. The module loads exactly when both variables are set to non-empty
    values, and the configuration then holds these values; a variable set to
    the empty text is refused like an absent one. *)
Theorem load_config_outcome (environ : gmap string string) :
  (∀ cfg, load_config environ = Return cfg ↔
     environ !! "SPOTIFY_CLIENT_ID" = Some (CLIENT_ID cfg) ∧ CLIENT_ID cfg ≠ "" ∧
     environ !! "SPOTIFY_CLIENT_SECRET" = Some (CLIENT_SECRET cfg) ∧
     CLIENT_SECRET cfg ≠ "") ∧
  (missing (environ !! "SPOTIFY_CLIENT_ID") ∨
   missing (environ !! "SPOTIFY_CLIENT_SECRET") →
   load_config environ =
     Raise (ValueError "Client ID or Client Secret not found in environment variables.")).
Proof.
  unfold load_config. split.
  - intros [cid sec]. simpl.
    destruct (environ !! "SPOTIFY_CLIENT_ID") as [a|]; simpl.
    2: { split; [done | by intros (? & _)]. }
    destruct (environ !! "SPOTIFY_CLIENT_SECRET") as [b|]; simpl.
    2: { rewrite orb_true_r. split; [done | by intros (_ & _ & ? & _)]. }
    destruct a as [|x a], b as [|y b]; simpl.
    + split; [done | by intros ([= <-] & ? & _)].
    + split; [done | by intros ([= <-] & ? & _)].
    + split; [done | by intros (_ & _ & [= <-] & ?)].
    + split; [by intros [= <- <-] | by intros ([= <-] & _ & [= <-] & _)].
  - intros [[-> | ->] | [-> | ->]]; simpl; try done.
    all: by rewrite orb_true_r.
Qed.

Lemma load_config_outcome_witness :
  load_config (<["SPOTIFY_CLIENT_ID" := "id"]> {["SPOTIFY_CLIENT_SECRET" := "secret"]})
    = Return Scenario.cfg ∧
  load_config (<["SPOTIFY_CLIENT_ID" := "id"]> {["SPOTIFY_CLIENT_SECRET" := ""]})
    = Raise (ValueError "Client ID or Client Secret not found in environment variables.").
Proof.
  split.
  - apply (proj1 (load_config_outcome _)).
    split_and!; [reflexivity | discriminate | reflexivity | discriminate].
  - apply (proj2 (load_config_outcome _)). right. right. reflexivity.
Defined.

Lemma quote_plus_unreserved (s : string) :
  Str.all Url.is_unreserved s = true → Url.quote_plus s = s.
Proof.
  induction s as [|c s IH]; simpl; [done |].
  intros [Hc Hs]%andb_prop. unfold Url.quote_char. rewrite Hc, IH by done. done.
Qed.

Lemma alnum_unreserved (c : ascii) :
  Re.is_alnum c = true → Url.is_unreserved c = true.
Proof. intros Hc. unfold Url.is_unreserved. by rewrite Hc. Qed.

(** X19. The entry page sends no request.  For a client identifier made of
    letters and digits its authorization address is the text below: the
    identifier appears as it is, the redirect address is percent-encoded,
    the two scopes are joined by [+], and the client secret is not part of
    it. *)
Theorem index_auth_url (cfg : config) :
  Str.all Re.is_alnum (CLIENT_ID cfg) = true →
  run (index cfg) =
    (Return (Some (RenderTemplate "index.html"
       [("auth_url",
         "https://accounts.spotify.com/authorize?client_id=" +:+ CLIENT_ID cfg +:+
         "&response_type=code&redirect_uri=https%3A%2F%2Fkanye-cleaner.onrender.com%2Fcallback&scope=playlist-modify-public+playlist-modify-private&show_dialog=True")])),
     []).
Proof.
  intros Hid. unfold index, Url.urlencode.
  rewrite (quote_plus_unreserved (CLIENT_ID cfg))
    by (revert Hid; apply all_impl, alnum_unreserved).
  reflexivity.
Qed.

Lemma index_auth_url_witness :
  run (index Scenario.cfg) =
    (Return (Some (RenderTemplate "index.html"
       [("auth_url",
         "https://accounts.spotify.com/authorize?client_id=id&response_type=code&redirect_uri=https%3A%2F%2Fkanye-cleaner.onrender.com%2Fcallback&scope=playlist-modify-public+playlist-modify-private&show_dialog=True")])),
     []).
Proof. apply (index_auth_url Scenario.cfg). reflexivity. Defined.

(** * What reaches the request address *)

(** X20. Whenever one of the patterns matches somewhere in the input, the
    extracted identifier is non-empty and made of ASCII letters and digits
    only. *)
Theorem extract_playlist_id_clean (s : string) :
  ReSpec.occurs url_pattern s ∨ ReSpec.occurs uri_pattern s →
  extract_playlist_id s ≠ "" ∧ Str.all Re.is_alnum (extract_playlist_id s) = true.
Proof.
  intros Hocc. unfold extract_playlist_id.
  destruct (Re.search url_pattern s) as [g|] eqn:Hurl.
  - by apply search_group_nonempty in Hurl.
  - destruct (Re.search uri_pattern s) as [g|] eqn:Huri.
    + by apply search_group_nonempty in Huri.
    + apply search_None in Hurl, Huri. by destruct Hocc.
Qed.

Lemma extract_playlist_id_clean_witness :
  extract_playlist_id "spotify:playlist:abc/../../me" ≠ "" ∧
  Str.all Re.is_alnum (extract_playlist_id "spotify:playlist:abc/../../me") = true.
Proof.
  apply extract_playlist_id_clean. right.
  apply (search_occurs _ _ "abc"). vm_compute. reflexivity.
Defined.

(** X21. No validation: a non-empty playlist input in which neither pattern
    matches is placed as it is, unescaped, in the address of the fetch. *)
Theorem remove_artist_tracks_raw_input (http : request → response)
    (form : gmap string string) (token input : string) :
  form !! "access_token" = Some token → token ≠ "" →
  form !! "playlist_input" = Some input → input ≠ "" →
  ¬ ReSpec.occurs url_pattern input → ¬ ReSpec.occurs uri_pattern input →
  ∃ r rest,
    snd (run (remove_artist_tracks http form)) = r :: rest ∧
    req_method r = GET ∧
    req_url r = API_BASE_URL +:+ "/playlists/" +:+ input +:+ "/tracks".
Proof.
  intros Htok Htne Hin Hine Hurl%search_None Huri%search_None.
  assert (extract_playlist_id input = input) as Hid.
  { unfold extract_playlist_id. by rewrite Hurl, Huri. }
  rewrite (remove_artist_tracks_fetch _ _ _ _ Htok Htne Hin Hine). rewrite Hid.
  destruct (negb _); [by eexists _, _ |].
  destruct (json _) as [fields|items|]; [by eexists _, _ | | by eexists _, _].
  destruct (filter_tracks items); by eexists _, _.
Qed.

Lemma remove_artist_tracks_raw_input_witness :
  ∃ r rest,
    snd (run (remove_artist_tracks Scenario.not_found_service
                (<["access_token" := "tok"]> {["playlist_input" := "../me?x=1"]})))
      = r :: rest ∧
    req_method r = GET ∧
    req_url r = API_BASE_URL +:+ "/playlists/" +:+ "../me?x=1" +:+ "/tracks".
Proof.
  apply (remove_artist_tracks_raw_input Scenario.not_found_service
           (<["access_token" := "tok"]> {["playlist_input" := "../me?x=1"]})
           "tok" "../me?x=1");
    [reflexivity | discriminate | reflexivity | discriminate
    | apply search_None; vm_compute; reflexivity
    | apply search_None; vm_compute; reflexivity].
Defined.
